(** * Site configuration and article front-matter of the astro-erudite blog

    Source files covered:
    - [src/consts.ts]: the types [Site] and [Link] and the three exported
      constants [SITE], [NAV_LINKS] and [SOCIAL_LINKS];
    - [src/content/blog/hackers-guide-to-llm-rag-part1/index.mdx]: the
      front-matter block (lines 1-8) of the only article, and the two
      self-contained Python loops the article shows (lines 55-56, 62-63).

    The configuration holds no functions, only literals.  The literals are
    embedded character for character; what is proved about them goes through
    executable checkers (string classifiers, a front-matter reader) so that
    every statement can be evaluated. *)

From Stdlib Require Import String Ascii List ZArith Lia Bool Arith.
From Stdlib Require Import Sorting.Permutation Sorting.Sorted.
From Stdlib Require Import DecimalString.
Import ListNotations.

Open Scope string_scope.

(** ** The configuration module, [src/consts.ts] *)

Module Consts.

(** [export type Site].  The two [number] fields only ever hold the integer
    literals written in the file, so they are kept in [Z]. *)
Record Site := mkSite {
  TITLE : string;
  DESCRIPTION : string;
  EMAIL : string;
  NUM_POSTS_ON_HOMEPAGE : Z;
  POSTS_PER_PAGE : Z;
  SITEURL : string
}.

(** [export type Link]. *)
Record Link := mkLink {
  href : string;
  label : string
}.

(** [export const SITE].  The TITLE literal reads [strf0x's blog]; its
    quoting is damaged in the file, the text is kept as it stands there. *)
Definition SITE : Site := {|
  TITLE := "strf0x's blog";
  DESCRIPTION := "blog on my cyber to ai journey";
  EMAIL := "str.f0x@protonmail.com";
  NUM_POSTS_ON_HOMEPAGE := 2;
  POSTS_PER_PAGE := 3;
  SITEURL := "https://voluble-figolla-716fdd.netlify.app/blog/"
|}.

(** [export const NAV_LINKS]. *)
Definition NAV_LINKS : list Link := [
  {| href := "/blog"; label := "blog" |};
  {| href := "/authors"; label := "authors" |};
  {| href := "/about"; label := "about" |};
  {| href := "/tags"; label := "tags" |}
].

(** [export const SOCIAL_LINKS]. *)
Definition SOCIAL_LINKS : list Link := [
  {| href := "https://github.com/strf0x1"; label := "GitHub" |};
  {| href := "https://twitter.com/strf0x1"; label := "Twitter" |};
  {| href := "str.f0x@protonmail.com"; label := "Email" |};
  {| href := "/rss.xml"; label := "RSS" |}
].

(** The two menus of the module, in declaration order. *)
Definition menus : list (list Link) := [NAV_LINKS; SOCIAL_LINKS].

End Consts.

Import Consts.

(** ** Character and string classifiers *)

Module Chars.

Definition code (c : ascii) : nat := nat_of_ascii c.

Definition between (lo hi : nat) (c : ascii) : bool :=
  (lo <=? code c)%nat && (code c <=? hi)%nat.

Definition is_lower : ascii -> bool := between 97 122.
Definition is_upper : ascii -> bool := between 65 90.
Definition is_digit : ascii -> bool := between 48 57.
Definition is_alpha (c : ascii) : bool := is_lower c || is_upper c.
Definition is_alnum (c : ascii) : bool := is_alpha c || is_digit c.

Definition one_of (chars : string) (c : ascii) : bool :=
  existsb (Ascii.eqb c) (list_ascii_of_string chars).

End Chars.

Module Str.

Definition all (p : ascii -> bool) (s : string) : bool :=
  forallb p (list_ascii_of_string s).

Definition nonempty (s : string) : bool :=
  match s with EmptyString => false | String _ _ => true end.

(** [starts_with p s]: [p] is a prefix of [s]. *)
Fixpoint starts_with (p s : string) : bool :=
  match p, s with
  | EmptyString, _ => true
  | String a p', String b s' => Ascii.eqb a b && starts_with p' s'
  | String _ _, EmptyString => false
  end.

(** [split_at c s] cuts [s] at the first occurrence of [c]: the text before
    it and the text after it; [None] when [c] does not occur. *)
Fixpoint split_at (c : ascii) (s : string) : option (string * string) :=
  match s with
  | EmptyString => None
  | String a rest =>
      if Ascii.eqb a c then Some (EmptyString, rest)
      else match split_at c rest with
           | Some (l, r) => Some (String a l, r)
           | None => None
           end
  end.

Fixpoint drop_spaces (s : string) : string :=
  match s with
  | String " " rest => drop_spaces rest
  | _ => s
  end.

Definition contains (c : ascii) (s : string) : bool :=
  existsb (Ascii.eqb c) (list_ascii_of_string s).

(** [split_on c s]: the pieces of [s] between occurrences of [c]
    (always at least one piece, as JavaScript's [split] gives). *)
Fixpoint split_on (c : ascii) (s : string) : list string :=
  match s with
  | EmptyString => [EmptyString]
  | String a rest =>
      if Ascii.eqb a c then EmptyString :: split_on c rest
      else match split_on c rest with
           | piece :: pieces => String a piece :: pieces
           | [] => [String a EmptyString]
           end
  end.

Definition rev_string (s : string) : string :=
  string_of_list_ascii (rev (list_ascii_of_string s)).

(** Strip blanks at both ends. *)
Definition trim (s : string) : string :=
  rev_string (drop_spaces (rev_string (drop_spaces s))).

(** [drop n s]: [s] without its first [n] characters. *)
Fixpoint drop (n : nat) (s : string) : string :=
  match n, s with
  | S k, String _ rest => drop k rest
  | _, _ => s
  end.

End Str.

(** ** Shapes of link targets

    The spec's words for what a [Link.href] may hold.  An absolute URL is
    read after RFC 3986 (scheme, [://], host, path); a relative path is a
    path reference written with a leading [/], [./] or [../]; an e-mail
    address is [local@domain]. *)

Module Url.

Record t := mk {
  scheme : string;
  host : string;
  path : string
}.

Definition is_scheme_char (c : ascii) : bool :=
  Chars.is_alnum c || Chars.one_of "+-." c.

Definition valid_scheme (s : string) : bool :=
  match s with
  | EmptyString => false
  | String c _ => Chars.is_alpha c && Str.all is_scheme_char s
  end.

Definition is_label_char (c : ascii) : bool :=
  Chars.is_alnum c || Chars.one_of "-" c.

(** A host is a dot-separated list of non-empty labels. *)
Definition valid_host (h : string) : bool :=
  forallb (fun l => Str.nonempty l && Str.all is_label_char l)
          (Str.split_on "." h).

Definition is_path_char (c : ascii) : bool :=
  Chars.is_alnum c || Chars.one_of "-._~!$&'()*+,;=:@/" c.

(** Reads [scheme://host/path]; no user info, port, query or fragment. *)
Definition parse (s : string) : option t :=
  match Str.split_at ":" s with
  | None => None
  | Some (sch, rest) =>
      if valid_scheme sch && Str.starts_with "//" rest then
        let after := Str.drop 2 rest in
        let hp := match Str.split_at "/" after with
                  | Some (h, p) => (h, String "/" p)
                  | None => (after, EmptyString)
                  end in
        if valid_host (fst hp) && Str.all is_path_char (snd hp)
        then Some (mk sch (fst hp) (snd hp))
        else None
      else None
  end.

Definition is_absolute_url (s : string) : bool :=
  match parse s with Some _ => true | None => false end.

Definition is_relative_path (s : string) : bool :=
  ((Str.starts_with "/" s && negb (Str.starts_with "//" s))
   || Str.starts_with "./" s || Str.starts_with "../" s)
  && Str.all is_path_char s.

Definition is_local_char (c : ascii) : bool :=
  Chars.is_alnum c || Chars.one_of ".!#$%&'*+/=?^_`{|}~-" c.

Definition is_email_address (s : string) : bool :=
  match Str.split_at "@" s with
  | None => false
  | Some (local, domain) =>
      Str.nonempty local && Str.all is_local_char local
      && valid_host domain && Str.contains "." domain
  end.

End Url.

(** What the claim about targets asks of one link, and what the table
    satisfies: the third shape is the bare address of the entry labelled
    [Email], the same string as [SITE.EMAIL]. *)
Definition target_is_path_or_url (l : Link) : bool :=
  Url.is_relative_path (href l) || Url.is_absolute_url (href l).

Definition target_is_contact_address (l : Link) : bool :=
  Url.is_email_address (href l)
  && String.eqb (label l) "Email"
  && String.eqb (href l) (EMAIL SITE).

Definition target_shape_ok (l : Link) : bool :=
  target_is_path_or_url l || target_is_contact_address l.

Definition link_nonempty (l : Link) : bool :=
  Str.nonempty (label l) && Str.nonempty (href l).


(** ** Article front-matter, [src/content/blog/*/index.mdx]

    An article is a text file: a block of [key: value] lines between two
    [---] fences, then the prose.  The reader below covers the YAML the
    articles use: plain and single-quoted scalars, dates, and one-line
    sequences [[a, b]] of scalars.  It rejects what it does not cover. *)

Module FrontMatter.

Inductive scalar :=
| SStr (s : string)
| SInt (digits : string)
| SDate (year month day : nat).

Inductive value :=
| VScalar (s : scalar)
| VSeq (items : list scalar).

Definition document := list string.
Definition fields := list (string * value).

Definition fence : string := "---".

Definition digit_val (c : ascii) : nat := Chars.code c - 48.

Definition number (s : string) : nat :=
  fold_left (fun acc c => 10 * acc + digit_val c) (list_ascii_of_string s) 0.

Definition is_number (s : string) : bool :=
  Str.nonempty s && Str.all Chars.is_digit s.

(** [YYYY-MM-DD] with a month in 1..12 and a day in 1..31. *)
Definition read_date (s : string) : option scalar :=
  match Str.split_on "-" s with
  | [y; m; d] =>
      if is_number y && is_number m && is_number d
         && Nat.eqb (String.length y) 4 && Nat.eqb (String.length m) 2
         && Nat.eqb (String.length d) 2
         && Nat.leb 1 (number m) && Nat.leb (number m) 12
         && Nat.leb 1 (number d) && Nat.leb (number d) 31
      then Some (SDate (number y) (number m) (number d))
      else None
  | _ => None
  end.

(** A single-quoted scalar is closed by the next quote, which must end the
    text; a plain scalar is a date, a number or a string. *)
Definition read_scalar (s : string) : option scalar :=
  match s with
  | EmptyString => None
  | String "'" rest =>
      match Str.split_at "'" rest with
      | Some (inner, EmptyString) => Some (SStr inner)
      | _ => None
      end
  | _ =>
      match read_date s with
      | Some d => Some d
      | None => if is_number s then Some (SInt s) else Some (SStr s)
      end
  end.

Fixpoint read_all (items : list string) : option (list scalar) :=
  match items with
  | [] => Some []
  | i :: rest =>
      match read_scalar (Str.trim i), read_all rest with
      | Some v, Some vs => Some (v :: vs)
      | _, _ => None
      end
  end.

Definition read_value (s : string) : option value :=
  match s with
  | String "[" rest =>
      match Str.split_at "]" rest with
      | Some (EmptyString, EmptyString) => Some (VSeq [])
      | Some (inner, EmptyString) =>
          option_map VSeq (read_all (Str.split_on "," inner))
      | _ => None
      end
  | _ => option_map VScalar (read_scalar s)
  end.

Definition is_key_char (c : ascii) : bool :=
  Chars.is_alnum c || Chars.one_of "_-" c.

Definition read_line (line : string) : option (string * value) :=
  match Str.split_at ":" line with
  | None => None
  | Some (key, rest) =>
      if Str.nonempty key && Str.all is_key_char key then
        option_map (pair key) (read_value (Str.trim rest))
      else None
  end.

(** The lines between the opening fence and the next one. *)
Fixpoint until_fence (lines : document) : option (list string) :=
  match lines with
  | [] => None
  | l :: rest =>
      if String.eqb l fence then Some []
      else option_map (cons l) (until_fence rest)
  end.

Definition block (doc : document) : option (list string) :=
  match doc with
  | l :: rest => if String.eqb l fence then until_fence rest else None
  | [] => None
  end.

Fixpoint read_lines (lines : list string) : option fields :=
  match lines with
  | [] => Some []
  | l :: rest =>
      match read_line l, read_lines rest with
      | Some f, Some fs => Some (f :: fs)
      | _, _ => None
      end
  end.

Definition read (doc : document) : option fields :=
  match block doc with
  | Some lines => read_lines lines
  | None => None
  end.

Fixpoint lookup (key : string) (fs : fields) : option value :=
  match fs with
  | [] => None
  | (k, v) :: rest => if String.eqb k key then Some v else lookup key rest
  end.

End FrontMatter.


(** ** The front-matter schema and the articles *)

Module Schema.

Import FrontMatter.

Inductive field_type := TString | TDate | TStringSeq | TFilePath.

(** Modelled from the spec: the schema that types the front-matter is
    declared outside the files covered here; the six rows are those of the
    spec's table (title, description: string; date: date value; tags,
    authors: ordered sequence of string; image: relative file path), all
    required. *)
Definition required : list (string * field_type) := [
  ("title", TString);
  ("description", TString);
  ("date", TDate);
  ("tags", TStringSeq);
  ("image", TFilePath);
  ("authors", TStringSeq)
].

Definition is_str (s : scalar) : bool :=
  match s with SStr _ => true | _ => false end.

Definition is_relative_file (p : string) : bool :=
  (Str.starts_with "./" p || Str.starts_with "../" p)
  && Str.all Url.is_path_char p.

Definition has_type (v : value) (t : field_type) : bool :=
  match t, v with
  | TString, VScalar (SStr _) => true
  | TDate, VScalar (SDate _ _ _) => true
  | TStringSeq, VSeq items => forallb is_str items
  | TFilePath, VScalar (SStr p) => is_relative_file p
  | _, _ => false
  end.

Definition field_ok (fs : fields) (row : string * field_type) : bool :=
  match lookup (fst row) fs with
  | Some v => has_type v (snd row)
  | None => false
  end.

Definition seq_nonempty (fs : fields) (key : string) : bool :=
  match lookup key fs with
  | Some (VSeq (_ :: _)) => true
  | _ => false
  end.

Definition fields_ok (fs : fields) : bool :=
  forallb (field_ok fs) required
  && seq_nonempty fs "tags" && seq_nonempty fs "authors".

(** The same requirement spelled out: each of the six fields is present
    with a value of its type, and the two sequences have an item. *)
Definition conforms (fs : fields) : Prop :=
  exists title description year month day tags image authors,
    lookup "title" fs = Some (VScalar (SStr title)) /\
    lookup "description" fs = Some (VScalar (SStr description)) /\
    lookup "date" fs = Some (VScalar (SDate year month day)) /\
    lookup "tags" fs = Some (VSeq (map SStr tags)) /\ tags <> [] /\
    lookup "image" fs = Some (VScalar (SStr image)) /\
    is_relative_file image = true /\
    lookup "authors" fs = Some (VSeq (map SStr authors)) /\ authors <> [].

(** The check on a whole document: the block is found, every line of it is
    read, and the fields obey the schema. *)
Definition article_ok (doc : document) : bool :=
  match read doc with
  | Some fs => fields_ok fs
  | None => false
  end.

End Schema.

Module Articles.

(** Lines 1-8 of [hackers-guide-to-llm-rag-part1/index.mdx]. *)
Definition part1_head : list string := [
  "---";
  "title: A Hacker’s Guide to Local LLMs and RAG";
  "description:  Exploring the power of combining local language models with retrieval augmented generation for hackers.";
  "date: 2024-01-01";
  "tags: ['LLM', 'RAG', 'Cybersecurity', 'AI', 'Machine Learning']";
  "image: './1200x630.png'";
  "authors: ['strf0x']";
  "---"
].

(** The same file carries a second article after a separator line (line
    217); its block is lines 217-224, starting at the fence. *)
Definition part2_head : list string := [
  "---";
  "title: Local LLM's and RAG for Cybersecurity Researchers";
  "description:  Exploring the power of combining local large language models with retrieval augmented generation for cybersecurity researchers.";
  "date: 2024-10-25";
  "tags: ['LLM', 'RAG', 'Cybersecurity', 'AI', 'Machine Learning']";
  "image: './1200x630.png'";
  "authors: ['strf0x']";
  "---"
].

(** An article is its head followed by its prose; the prose is left open
    since the front-matter reader stops at the closing fence. *)
Definition part1 (prose : list string) : FrontMatter.document :=
  (part1_head ++ prose)%list.

Definition part2 (prose : list string) : FrontMatter.document :=
  (part2_head ++ prose)%list.

Definition all (prose1 prose2 : list string) : list FrontMatter.document :=
  [part1 prose1; part2 prose2].

End Articles.

(** ** Pagination by [SITE.POSTS_PER_PAGE] *)

Module Pagination.

Section Pages.

Context {A : Type}.

Fixpoint chunks (fuel size : nat) (items : list A) : list (list A) :=
  match fuel, items with
  | S k, _ :: _ => firstn size items :: chunks k size (skipn size items)
  | _, _ => []
  end.

(** Modelled from the spec: pagination belongs to the renderer, which is
    not among the files covered here.  The list is cut into consecutive
    pages of [size] items, the last one holding what remains. *)
Definition paginate (size : nat) (items : list A) : list (list A) :=
  chunks (length items) size items.

Variable before : A -> A -> bool.

Fixpoint place (x : A) (sorted : list A) : list A :=
  match sorted with
  | [] => [x]
  | y :: rest => if before x y then x :: y :: rest else y :: place x rest
  end.

(** Modelled from the spec: the renderer orders the articles by
    publication date before cutting pages; [before] is that order. *)
Definition by_date (items : list A) : list A :=
  fold_right place [] items.

(** [a] may stand right before [b] in that order. *)
Definition ordered (a b : A) : Prop := before a b = true.

End Pages.

(** The page size the configuration provides. *)
Definition page_size : nat := Z.to_nat (POSTS_PER_PAGE SITE).

Record Post := mkPost {
  slug : string;
  published : nat * nat * nat
}.

Definition day_number (d : nat * nat * nat) : nat :=
  let '(y, m, dd) := d in (y * 12 + (m - 1)) * 31 + (dd - 1).

Definition published_before (a b : Post) : bool :=
  Nat.leb (day_number (published a)) (day_number (published b)).

Definition seven_posts : list Post := [
  mkPost "g" (2024, 10, 25);
  mkPost "a" (2024, 1, 1);
  mkPost "d" (2024, 5, 17);
  mkPost "b" (2024, 2, 9);
  mkPost "f" (2024, 9, 30);
  mkPost "c" (2024, 3, 3);
  mkPost "e" (2024, 7, 4)
].

End Pagination.

(** ** The exports of [consts.ts] as objects

    [export const X = ...] binds the name [X] for good to the object the
    literal creates; the object itself stays writable: [Site] and [Link]
    declare no [readonly] field, [Link[]] is no [readonly] array, and
    nothing is frozen.  The module has no statement after its three
    declarations.  A consumer that imports an export holds a reference to
    the object and can read it, assign to its properties, and push onto the
    arrays. *)

Module Exports.

Definition addr := nat.

Inductive object :=
| ObjSite (s : Site)
| ObjLink (l : Link)
| ObjArray (items : list addr).

Definition heap := list object.

Definition alloc (o : object) (h : heap) : addr * heap :=
  (length h, (h ++ [o])%list).

(** The elements of an array literal, left to right. *)
Fixpoint alloc_links (ls : list Link) (h : heap) : list addr * heap :=
  match ls with
  | [] => ([], h)
  | l :: rest =>
      let (a, h1) := alloc (ObjLink l) h in
      let (others, h2) := alloc_links rest h1 in
      (a :: others, h2)
  end.

Record bindings := mkBindings {
  site_ref : addr;
  nav_ref : addr;
  social_ref : addr
}.

(** Module initialisation: the three declarations, in order. *)
Definition load : bindings * heap :=
  let (s, h1) := alloc (ObjSite SITE) [] in
  let (nav_items, h2) := alloc_links NAV_LINKS h1 in
  let (nav, h3) := alloc (ObjArray nav_items) h2 in
  let (social_items, h4) := alloc_links SOCIAL_LINKS h3 in
  let (social, h5) := alloc (ObjArray social_items) h4 in
  ({| site_ref := s; nav_ref := nav; social_ref := social |}, h5).

Definition consts : bindings := fst load.
Definition init : heap := snd load.

Inductive export := ExpSITE | ExpNAV_LINKS | ExpSOCIAL_LINKS.

(** A [const] binding: no operation changes what a name refers to. *)
Definition binding (e : export) : addr :=
  match e with
  | ExpSITE => site_ref consts
  | ExpNAV_LINKS => nav_ref consts
  | ExpSOCIAL_LINKS => social_ref consts
  end.

(** [obj.P = v] for the properties the two types declare; the numbers
    assigned are taken in [Z] as the fields are. *)
Inductive property :=
| PTitle (v : string)
| PDescription (v : string)
| PEmail (v : string)
| PNumPosts (v : Z)
| PPostsPerPage (v : Z)
| PSiteUrl (v : string)
| PHref (v : string)
| PLabel (v : string).

Definition assign (p : property) (o : object) : option object :=
  match p, o with
  | PTitle v, ObjSite s =>
      Some (ObjSite (mkSite v (DESCRIPTION s) (EMAIL s)
                       (NUM_POSTS_ON_HOMEPAGE s) (POSTS_PER_PAGE s) (SITEURL s)))
  | PDescription v, ObjSite s =>
      Some (ObjSite (mkSite (TITLE s) v (EMAIL s)
                       (NUM_POSTS_ON_HOMEPAGE s) (POSTS_PER_PAGE s) (SITEURL s)))
  | PEmail v, ObjSite s =>
      Some (ObjSite (mkSite (TITLE s) (DESCRIPTION s) v
                       (NUM_POSTS_ON_HOMEPAGE s) (POSTS_PER_PAGE s) (SITEURL s)))
  | PNumPosts v, ObjSite s =>
      Some (ObjSite (mkSite (TITLE s) (DESCRIPTION s) (EMAIL s)
                       v (POSTS_PER_PAGE s) (SITEURL s)))
  | PPostsPerPage v, ObjSite s =>
      Some (ObjSite (mkSite (TITLE s) (DESCRIPTION s) (EMAIL s)
                       (NUM_POSTS_ON_HOMEPAGE s) v (SITEURL s)))
  | PSiteUrl v, ObjSite s =>
      Some (ObjSite (mkSite (TITLE s) (DESCRIPTION s) (EMAIL s)
                       (NUM_POSTS_ON_HOMEPAGE s) (POSTS_PER_PAGE s) v))
  | PHref v, ObjLink l => Some (ObjLink (mkLink v (label l)))
  | PLabel v, ObjLink l => Some (ObjLink (mkLink (href l) v))
  | _, _ => None
  end.

(** What a consumer does with the references it holds.  An operation the
    types reject (a property the object does not have, a push of something
    that is no [Link], a reference to nothing) is not performed. *)
Inductive op :=
| Read (e : export)
| NewLink (l : Link)
| Assign (a : addr) (p : property)
| Push (a item : addr).

Fixpoint replace (a : addr) (o : object) (h : heap) : heap :=
  match h, a with
  | [], _ => []
  | _ :: rest, O => o :: rest
  | x :: rest, S k => x :: replace k o rest
  end.

Definition step (o : op) (h : heap) : heap :=
  match o with
  | Read _ => h
  | NewLink l => snd (alloc (ObjLink l) h)
  | Assign a p =>
      match nth_error h a with
      | Some obj =>
          match assign p obj with
          | Some obj' => replace a obj' h
          | None => h
          end
      | None => h
      end
  | Push a item =>
      match nth_error h a, nth_error h item with
      | Some (ObjArray items), Some (ObjLink _) =>
          replace a (ObjArray (items ++ [item])%list) h
      | _, _ => h
      end
  end.

Definition run (ops : list op) (h : heap) : heap :=
  fold_left (fun h1 o => step o h1) ops h.

Inductive value :=
| VSite (s : Site)
| VLinks (ls : list Link).

Fixpoint links_of (h : heap) (items : list addr) : option (list Link) :=
  match items with
  | [] => Some []
  | i :: rest =>
      match nth_error h i, links_of h rest with
      | Some (ObjLink l), Some ls => Some (l :: ls)
      | _, _ => None
      end
  end.

(** What a reader sees through a reference: the record, or the entries of
    the array in order. *)
Definition view (h : heap) (a : addr) : option value :=
  match nth_error h a with
  | Some (ObjSite s) => Some (VSite s)
  | Some (ObjArray items) => option_map VLinks (links_of h items)
  | _ => None
  end.

Definition read (e : export) (h : heap) : option value :=
  view h (binding e).

(** The objects a read of [e] goes through: the bound object and, for a
    menu, the entries it holds. *)
Definition footprint (h : heap) (e : export) : list addr :=
  binding e ::
  match nth_error h (binding e) with
  | Some (ObjArray items) => items
  | _ => []
  end.

(** The object an operation writes to. *)
Definition target (o : op) : option addr :=
  match o with
  | Read _ | NewLink _ => None
  | Assign a _ => Some a
  | Push a _ => Some a
  end.

Definition leaves (objects : list addr) (o : op) : bool :=
  match target o with
  | Some a => negb (existsb (Nat.eqb a) objects)
  | None => true
  end.

(** Every item of an array refers to a [Link] object. *)
Definition links_at (h : heap) (items : list addr) : Prop :=
  Forall (fun i => exists l, nth_error h i = Some (ObjLink l)) items.

(** The object at [a] can be read as a record or as a menu. *)
Definition readable (h : heap) (a : addr) : Prop :=
  (exists s, nth_error h a = Some (ObjSite s)) \/
  (exists items, nth_error h a = Some (ObjArray items) /\ links_at h items).

End Exports.


(** ** Views over the two tables *)

Module Menu.

(** Every entry of the configuration, navigation first. *)
Definition all_links : list Link := concat menus.

(** The host of an absolute target, when the target is one. *)
Definition target_host (l : Link) : option string :=
  option_map Url.host (Url.parse (href l)).

(** A target written from the site root down: one slash, then one segment
    without a further slash. *)
Definition is_root_segment (s : string) : bool :=
  match s with
  | String "/" segment =>
      Str.nonempty segment && negb (Str.contains "/" segment)
  | _ => false
  end.

End Menu.

(** ** Where a URL points on its host *)

Module SiteRoot.

(** Scheme and host, without the path. *)
Definition origin (u : Url.t) : string :=
  Url.scheme u ++ "://" ++ Url.host u.

(** The root of the host of [u]. *)
Definition root_of (u : Url.t) : string := origin u ++ "/".

(** RFC 3986, 5.2.2, for a reference that starts with one slash: it
    replaces the whole path of the base. *)
Definition resolve (base : Url.t) (target : string) : string :=
  origin base ++ target.

(** [url] lies under [place]. *)
Definition under (place url : string) : bool := Str.starts_with place url.

(** An absolute URL that names the root of its host: with the path [/],
    or with no path. *)
Definition is_site_root (s : string) : bool :=
  match Url.parse s with
  | Some u => String.eqb (Url.path u) "" || String.eqb (Url.path u) "/"
  | None => false
  end.

End SiteRoot.

(** ** The two Python loops shown in the article
    ([index.mdx], lines 55-56 and 62-63)

    Standard output is the list of printed lines.  A loop body either
    finishes with the output so far or raises, leaving what was printed. *)

Module Snippet.

Inductive outcome :=
| Finished (out : list string)
| Raised (out : list string).

(** [range(start, stop)]: empty when [stop <= start]. *)
Definition range (start stop : Z) : list Z :=
  map (fun k => (start + Z.of_nat k)%Z) (seq 0 (Z.to_nat (stop - start))).

(** The decimal digits of [abs(i)]. *)
Definition digits (i : Z) : string :=
  NilZero.string_of_uint (N.to_uint (Z.to_N (Z.abs i))).





Definition byte (n : Z) : ascii := ascii_of_N (Z.to_N n).

(** The bytes [print(chr(i))] writes on a UTF-8 output; [None] where Python
    raises: [chr] outside [0 .. 0x10FFFF], and the encoder on the surrogates
    [0xD800 .. 0xDFFF]. *)
Definition chr (i : Z) : option string :=
  if (i <? 0)%Z || (1114111 <? i)%Z then None
  else if (55296 <=? i)%Z && (i <=? 57343)%Z then None
  else if (i <? 128)%Z then Some (String (byte i) "")
  else if (i <? 2048)%Z then
    Some (String (byte (192 + i / 64))
         (String (byte (128 + i mod 64)) ""))
  else if (i <? 65536)%Z then
    Some (String (byte (224 + i / 4096))
         (String (byte (128 + (i / 64) mod 64))
         (String (byte (128 + i mod 64)) "")))
  else
    Some (String (byte (240 + i / 262144))
         (String (byte (128 + (i / 4096) mod 64))
         (String (byte (128 + (i / 64) mod 64))
         (String (byte (128 + i mod 64)) "")))).

Definition print (line : string) (out : list string) : outcome :=
  Finished (out ++ [line])%list.

(** [for i in items: body]. *)
Fixpoint for_each (items : list Z) (body : Z -> list string -> outcome)
    (out : list string) : outcome :=
  match items with
  | [] => Finished out
  | i :: rest =>
      match body i out with
      | Finished out1 => for_each rest body out1
      | Raised out1 => Raised out1
      end
  end.


(** Lines 62-63, with the bounds of [range] left open:
    [for i in range(start, stop): print(chr(i))]. *)
Definition print_chars (start stop : Z) (out : list string) : outcome :=
  for_each (range start stop)
    (fun i o => match chr i with
                | Some line => print line o
                | None => Raised o
                end) out.

Definition answer : list string -> outcome := print_chars 65 91.

End Snippet.

(** * Properties *)

(** ** Helper facts on strings *)

Lemma nonempty_true s : Str.nonempty s = true <-> s <> "".
Proof. destruct s; simpl; split; intros; congruence. Qed.

Lemma split_at_join c s l r :
  Str.split_at c s = Some (l, r) -> s = l ++ String c r.
Proof.
  revert l r; induction s as [|a s IH]; simpl; intros l r H; [discriminate|].
  destruct (Ascii.eqb_spec a c) as [->|Hne].
  - now inversion H.
  - destruct (Str.split_at c s) as [[l' r']|] eqn:E; [|discriminate].
    inversion H; subst. simpl. f_equal. now apply IH.
Qed.

Lemma split_at_none c s :
  Str.split_at c s = None <-> Str.contains c s = false.
Proof.
  unfold Str.contains.
  induction s as [|a s IH]; simpl; [tauto|].
  rewrite (Ascii.eqb_sym c a).
  destruct (Ascii.eqb a c); simpl.
  - split; discriminate.
  - destruct (Str.split_at c s) as [[l r]|].
    + split; [discriminate|]. intros H. apply IH in H. discriminate.
    + tauto.
Qed.

(** Whatever else the reader of URLs asks, a text without a colon has no
    scheme and is not an absolute URL. *)
Lemma no_colon_no_url s :
  Str.contains ":" s = false -> Url.is_absolute_url s = false.
Proof.
  intros H. apply split_at_none in H.
  unfold Url.is_absolute_url, Url.parse. now rewrite H.
Qed.

(** A relative path starts with a slash or a dot. *)
Lemma relative_path_first s :
  Url.is_relative_path s = true ->
  exists rest, s = String "/" rest \/ s = String "." rest.
Proof.
  unfold Url.is_relative_path. intros H.
  destruct s as [|c rest]; [discriminate|]. exists rest.
  apply andb_prop in H; destruct H as [H _].
  revert H. cbn [Str.starts_with].
  destruct (Ascii.eqb_spec "/" c) as [<-|]; [now left|].
  destruct (Ascii.eqb_spec "." c) as [<-|]; [now right|].
  cbn [andb orb]. discriminate.
Qed.

(** Case split over the entries of the two tables. *)
Ltac each_menu H :=
  unfold menus in H; simpl in H;
  destruct H as [<-|[<-|[]]].

Ltac each_link H :=
  simpl in H;
  repeat match type of H with
         | _ \/ _ => destruct H as [<-|H]
         | False => destruct H
         end.

(** ** Link entries *)

(** C1, the claim as written fails: the entry labelled Email of
    SOCIAL_LINKS holds a bare e-mail address; it has no scheme and no
    leading slash, so it is neither an absolute URL nor a relative path. *)
Lemma email_target_neither_path_nor_url :
  In SOCIAL_LINKS menus /\
  In {| href := "str.f0x@protonmail.com"; label := "Email" |} SOCIAL_LINKS /\
  Url.is_relative_path "str.f0x@protonmail.com" = false /\
  Url.is_absolute_url "str.f0x@protonmail.com" = false /\
  ~ (forall m e, In m menus -> In e m ->
       Url.is_relative_path (href e) = true \/
       Url.is_absolute_url (href e) = true).
Proof.
  assert (Hm : In SOCIAL_LINKS menus) by (simpl; auto).
  assert (Hl : In {| href := "str.f0x@protonmail.com"; label := "Email" |}
                 SOCIAL_LINKS) by (simpl; auto).
  split; [exact Hm|]. split; [exact Hl|].
  split; [reflexivity|].
  split; [apply no_colon_no_url; reflexivity|].
  intros H. destruct (H _ _ Hm Hl) as [E|E].
  - apply relative_path_first in E. destruct E as [rest [E|E]]; discriminate.
  - simpl in E. rewrite no_colon_no_url in E by reflexivity. discriminate.
Qed.

(** C1, amended: every target of the two menus is a relative path, an
    absolute URL, or a bare e-mail address; the last case is the entry
    labelled Email, whose target is the contact address SITE.EMAIL. *)
Theorem link_target_shape (m : list Link) (l : Link) :
  In m menus -> In l m ->
  Url.is_relative_path (href l) = true \/
  Url.is_absolute_url (href l) = true \/
  (Url.is_email_address (href l) = true /\
   label l = "Email" /\ href l = EMAIL SITE).
Proof.
  intros Hm Hl. each_menu Hm; each_link Hl;
    first [ left; reflexivity
          | right; left; reflexivity
          | right; right; repeat split ].
Qed.

Lemma link_target_shape_witness :
  In SOCIAL_LINKS menus /\
  In {| href := "str.f0x@protonmail.com"; label := "Email" |} SOCIAL_LINKS /\
  (Url.is_relative_path "str.f0x@protonmail.com" = true \/
   Url.is_absolute_url "str.f0x@protonmail.com" = true \/
   (Url.is_email_address "str.f0x@protonmail.com" = true /\
    "Email" = "Email" /\ "str.f0x@protonmail.com" = EMAIL SITE)).
Proof.
  split; [simpl; auto|]. split; [simpl; auto|].
  apply (link_target_shape SOCIAL_LINKS
           {| href := "str.f0x@protonmail.com"; label := "Email" |});
    simpl; auto.
Defined.

(** The executable form of the same table check. *)
Lemma target_shape_table :
  map (map target_is_path_or_url) menus =
    [[true; true; true; true]; [true; true; false; true]] /\
  forallb (forallb target_shape_ok) menus = true.
Proof. split; reflexivity. Qed.

(** C2: every entry of NAV_LINKS and of SOCIAL_LINKS has a non-empty label
    and a non-empty target. *)
Theorem links_nonempty :
  Forall (Forall (fun l => label l <> "" /\ href l <> "")) menus /\
  forallb (forallb link_nonempty) menus = true.
Proof.
  split; [|reflexivity].
  unfold menus, NAV_LINKS, SOCIAL_LINKS.
  repeat constructor; simpl; discriminate.
Qed.

(** C8: both menu sequences are non-empty. *)
Theorem menus_nonempty :
  NAV_LINKS <> [] /\ SOCIAL_LINKS <> [] /\
  (0 < length NAV_LINKS)%nat /\ (0 < length SOCIAL_LINKS)%nat.
Proof. repeat split; simpl; try discriminate; lia. Qed.

(** C9: NAV_LINKS and SOCIAL_LINKS are exactly these two sequences of
    (target, label) pairs, four entries each, in this order. *)
Theorem menus_exact :
  map (fun l => (href l, label l)) NAV_LINKS =
    [("/blog", "blog"); ("/authors", "authors");
     ("/about", "about"); ("/tags", "tags")] /\
  map (fun l => (href l, label l)) SOCIAL_LINKS =
    [("https://github.com/strf0x1", "GitHub");
     ("https://twitter.com/strf0x1", "Twitter");
     ("str.f0x@protonmail.com", "Email");
     ("/rss.xml", "RSS")] /\
  length NAV_LINKS = 4%nat /\ length SOCIAL_LINKS = 4%nat.
Proof. repeat split. Qed.

(** C10: within NAV_LINKS and within SOCIAL_LINKS the labels are pairwise
    distinct and the targets are pairwise distinct, so two entries of one
    menu that share a label or a target are the same entry. *)
Theorem menu_entries_distinct (m : list Link) :
  In m menus ->
  NoDup (map label m) /\ NoDup (map href m) /\
  forall a b, In a m -> In b m ->
    label a = label b \/ href a = href b -> a = b.
Proof.
  intros Hm. each_menu Hm.
  - split; [|split].
    + repeat constructor; simpl; intuition discriminate.
    + repeat constructor; simpl; intuition discriminate.
    + intros a b Ha Hb E. each_link Ha; each_link Hb;
        first [reflexivity | destruct E as [E|E]; discriminate E].
  - split; [|split].
    + repeat constructor; simpl; intuition discriminate.
    + repeat constructor; simpl; intuition discriminate.
    + intros a b Ha Hb E. each_link Ha; each_link Hb;
        first [reflexivity | destruct E as [E|E]; discriminate E].
Qed.

Lemma menu_entries_distinct_witness :
  In SOCIAL_LINKS menus /\
  (NoDup (map label SOCIAL_LINKS) /\ NoDup (map href SOCIAL_LINKS) /\
   forall a b, In a SOCIAL_LINKS -> In b SOCIAL_LINKS ->
     label a = label b \/ href a = href b -> a = b).
Proof.
  split; [simpl; auto|].
  apply (menu_entries_distinct SOCIAL_LINKS). simpl; auto.
Defined.

(** ** Site metadata *)

(** C3: SITE.NUM_POSTS_ON_HOMEPAGE and SITE.POSTS_PER_PAGE are integers
    and both are at least 1 (they are 2 and 3). *)
Theorem post_limits_positive :
  (1 <= NUM_POSTS_ON_HOMEPAGE SITE)%Z /\ (1 <= POSTS_PER_PAGE SITE)%Z /\
  NUM_POSTS_ON_HOMEPAGE SITE = 2%Z /\ POSTS_PER_PAGE SITE = 3%Z.
Proof. simpl. repeat split; lia. Qed.

(** What the reader of URLs accepts is put together again by writing the
    scheme, [://], the host and the path one after the other. *)
Lemma parse_sound s u :
  Url.parse s = Some u ->
  s = Url.scheme u ++ "://" ++ Url.host u ++ Url.path u /\
  Url.valid_scheme (Url.scheme u) = true /\
  Url.valid_host (Url.host u) = true /\
  Url.host u <> "".
Proof.
  unfold Url.parse. intros H.
  destruct (Str.split_at ":" s) as [[sch rest]|] eqn:Es; [|discriminate].
  apply split_at_join in Es. subst s.
  destruct (Url.valid_scheme sch) eqn:Esch; [|discriminate].
  destruct (Str.starts_with "//" rest) eqn:Er; [|discriminate].
  cbn [andb] in H.
  destruct rest as [|c1 rest]; [discriminate Er|].
  cbn [Str.starts_with] in Er. apply andb_prop in Er. destruct Er as [E1 Er].
  destruct rest as [|c2 after]; [discriminate Er|].
  apply andb_prop in Er. destruct Er as [E2 _].
  apply Ascii.eqb_eq in E1, E2. subst c1 c2.
  cbn [Str.drop] in H.
  match type of H with
  | context [Url.valid_host ?h && _] => destruct (Url.valid_host h) eqn:Eh
  end; [|discriminate].
  match type of H with
  | context [Str.all _ ?p] => destruct (Str.all Url.is_path_char p)
  end; [|discriminate].
  cbn [andb] in H. inversion H; subst u; clear H. cbn [Url.scheme Url.host Url.path].
  split; [|split; [exact Esch|split; [exact Eh|]]].
  - f_equal. cbn [append]. do 3 f_equal.
    destruct (Str.split_at "/" after) as [[h p]|] eqn:Ea; cbn [fst snd].
    + now apply split_at_join in Ea.
    + clear. induction after; simpl; congruence.
  - intros E. rewrite E in Eh. discriminate.
Qed.

(** SITE.SITEURL is a syntactically valid absolute URL: scheme https,
    host voluble-figolla-716fdd.netlify.app, path /blog/, with no query or
    fragment; the three parts written in a row give the literal back. *)
Lemma siteurl_absolute :
  Url.is_absolute_url (SITEURL SITE) = true /\
  Url.parse (SITEURL SITE) =
    Some {| Url.scheme := "https";
            Url.host := "voluble-figolla-716fdd.netlify.app";
            Url.path := "/blog/" |} /\
  SITEURL SITE =
    "https" ++ "://" ++ "voluble-figolla-716fdd.netlify.app" ++ "/blog/" /\
  Url.is_relative_path (SITEURL SITE) = false.
Proof. repeat split. Qed.

(** C4, the claim as written fails: SITE.SITEURL is an absolute URL, but
    its path is /blog/, not the root of its host; the menu target /authors,
    written from the site root, resolves to a place outside it. *)
Lemma siteurl_not_site_root :
  Url.is_absolute_url (SITEURL SITE) = true /\
  SiteRoot.is_site_root (SITEURL SITE) = false /\
  In {| href := "/authors"; label := "authors" |} NAV_LINKS /\
  (exists u, Url.parse (SITEURL SITE) = Some u /\
             SiteRoot.resolve u "/authors" =
               "https://voluble-figolla-716fdd.netlify.app/authors" /\
             SiteRoot.under (SITEURL SITE) (SiteRoot.resolve u "/authors")
               = false) /\
  ~ (Url.is_absolute_url (SITEURL SITE) = true /\
     SiteRoot.is_site_root (SITEURL SITE) = true).
Proof.
  split; [reflexivity|]. split; [reflexivity|].
  split; [simpl; auto|]. split.
  - eexists. split; [reflexivity|]. split; reflexivity.
  - intros [_ H]. vm_compute in H. discriminate H.
Qed.

(** C4, amended: SITE.SITEURL is a syntactically valid absolute URL,
    https://voluble-figolla-716fdd.netlify.app/blog/.  It names the place
    /blog/ one segment below the root of its host, not the root: every
    menu target that is a relative path resolves under the host root, and
    only the one labelled blog resolves to the place SITEURL names. *)
Theorem siteurl_names_blog_page :
  Url.is_absolute_url (SITEURL SITE) = true /\
  exists u,
    Url.parse (SITEURL SITE) = Some u /\
    Url.scheme u = "https" /\
    Url.host u = "voluble-figolla-716fdd.netlify.app" /\
    Url.path u = "/blog/" /\
    SITEURL SITE = SiteRoot.root_of u ++ "blog/" /\
    SiteRoot.is_site_root (SiteRoot.root_of u) = true /\
    Forall (fun l =>
              Url.is_relative_path (href l) = true ->
              SiteRoot.under (SiteRoot.root_of u)
                (SiteRoot.resolve u (href l)) = true /\
              (SiteRoot.resolve u (href l) ++ "/" = SITEURL SITE <->
               label l = "blog"))
           Menu.all_links.
Proof.
  split; [reflexivity|].
  exists (Url.mk "https" "voluble-figolla-716fdd.netlify.app" "/blog/").
  repeat (split; [reflexivity|]).
  unfold Menu.all_links, menus, NAV_LINKS, SOCIAL_LINKS. cbn [concat app].
  repeat apply Forall_cons; try apply Forall_nil; intros Hrel;
    try (vm_compute in Hrel; discriminate Hrel);
    (split; [reflexivity|split; intros E;
               first [reflexivity | vm_compute in E; discriminate E]]).
Qed.


(** ** Article front-matter *)

Lemma until_fence_app lines block more :
  FrontMatter.until_fence lines = Some block ->
  FrontMatter.until_fence (lines ++ more)%list = Some block.
Proof.
  revert block; induction lines as [|l lines IH]; simpl; intros block H.
  - discriminate.
  - destruct (String.eqb l FrontMatter.fence); [exact H|].
    destruct (FrontMatter.until_fence lines) as [b|]; [|discriminate].
    now rewrite (IH b eq_refl).
Qed.

(** The prose after the closing fence plays no part in what is read. *)
Lemma read_app head prose fs :
  FrontMatter.read head = Some fs ->
  FrontMatter.read (head ++ prose)%list = Some fs.
Proof.
  unfold FrontMatter.read, FrontMatter.block.
  destruct head as [|l rest]; [discriminate|]. simpl.
  destruct (String.eqb l FrontMatter.fence); [|discriminate].
  destruct (FrontMatter.until_fence rest) as [b|] eqn:E; [|discriminate].
  now rewrite (until_fence_app _ _ prose E).
Qed.

Lemma all_strings items :
  forallb Schema.is_str items = true ->
  exists strs, items = map FrontMatter.SStr strs.
Proof.
  induction items as [|i items IH]; simpl; intros H.
  - now exists [].
  - apply andb_prop in H. destruct H as [Hi H].
    destruct (IH H) as [strs ->].
    destruct i as [s| |]; try discriminate.
    now exists (s :: strs).
Qed.

(** The executable check implies the requirement as spelled out. *)
Ltac split_andb :=
  repeat match goal with
         | H : _ && _ = true |- _ => apply andb_prop in H; destruct H
         end.

Lemma fields_ok_conforms fs :
  Schema.fields_ok fs = true -> Schema.conforms fs.
Proof.
  unfold Schema.fields_ok, Schema.required, Schema.seq_nonempty, Schema.conforms.
  cbn [forallb]. intros H. split_andb.
  unfold Schema.field_ok in *. cbn [fst snd] in *.
  destruct (FrontMatter.lookup "title" fs) as [[[title| |]|]|];
    cbn [Schema.has_type] in *; try congruence.
  destruct (FrontMatter.lookup "description" fs) as [[[descr| |]|]|];
    cbn [Schema.has_type] in *; try congruence.
  destruct (FrontMatter.lookup "date" fs) as [[[| |y m d]|]|];
    cbn [Schema.has_type] in *; try congruence.
  destruct (FrontMatter.lookup "tags" fs) as [[|tags]|];
    cbn [Schema.has_type] in *; try congruence.
  destruct (FrontMatter.lookup "image" fs) as [[[image| |]|]|];
    cbn [Schema.has_type] in *; try congruence.
  destruct (FrontMatter.lookup "authors" fs) as [[|authors]|];
    cbn [Schema.has_type] in *; try congruence.
  destruct (all_strings tags) as [ts ->]; [assumption|].
  destruct (all_strings authors) as [aus ->]; [assumption|].
  exists title, descr, y, m, d, ts, image, aus.
  repeat split; try assumption.
  - destruct ts; [discriminate|discriminate].
  - destruct aus; [discriminate|discriminate].
Qed.

Lemma part1_fields prose :
  FrontMatter.read (Articles.part1 prose) = Some [
    ("title", FrontMatter.VScalar
       (FrontMatter.SStr "A Hacker’s Guide to Local LLMs and RAG"));
    ("description", FrontMatter.VScalar
       (FrontMatter.SStr "Exploring the power of combining local language models with retrieval augmented generation for hackers."));
    ("date", FrontMatter.VScalar (FrontMatter.SDate 2024 1 1));
    ("tags", FrontMatter.VSeq
       (map FrontMatter.SStr
          ["LLM"; "RAG"; "Cybersecurity"; "AI"; "Machine Learning"]));
    ("image", FrontMatter.VScalar (FrontMatter.SStr "./1200x630.png"));
    ("authors", FrontMatter.VSeq (map FrontMatter.SStr ["strf0x"]))
  ].
Proof. apply read_app. reflexivity. Qed.

Lemma part2_fields prose :
  FrontMatter.read (Articles.part2 prose) = Some [
    ("title", FrontMatter.VScalar
       (FrontMatter.SStr "Local LLM's and RAG for Cybersecurity Researchers"));
    ("description", FrontMatter.VScalar
       (FrontMatter.SStr "Exploring the power of combining local large language models with retrieval augmented generation for cybersecurity researchers."));
    ("date", FrontMatter.VScalar (FrontMatter.SDate 2024 10 25));
    ("tags", FrontMatter.VSeq
       (map FrontMatter.SStr
          ["LLM"; "RAG"; "Cybersecurity"; "AI"; "Machine Learning"]));
    ("image", FrontMatter.VScalar (FrontMatter.SStr "./1200x630.png"));
    ("authors", FrontMatter.VSeq (map FrontMatter.SStr ["strf0x"]))
  ].
Proof. apply read_app. reflexivity. Qed.

(** C5: each article's front-matter holds the six required fields (title,
    description, date, tags, image, authors) with values of the required
    types, and its tags and authors sequences are non-empty; this holds
    whatever prose follows the block. *)
Theorem articles_front_matter (prose1 prose2 : list string) :
  Forall (fun doc =>
            Schema.article_ok doc = true /\
            exists fs, FrontMatter.read doc = Some fs /\ Schema.conforms fs)
         (Articles.all prose1 prose2).
Proof.
  assert (H1 : Schema.article_ok (Articles.part1 prose1) = true).
  { unfold Schema.article_ok. now rewrite part1_fields. }
  assert (H2 : Schema.article_ok (Articles.part2 prose2) = true).
  { unfold Schema.article_ok. now rewrite part2_fields. }
  unfold Articles.all. repeat constructor; try assumption.
  - unfold Schema.article_ok in H1.
    destruct (FrontMatter.read (Articles.part1 prose1)) as [fs|];
      [|discriminate].
    exists fs. split; [reflexivity|]. now apply fields_ok_conforms.
  - unfold Schema.article_ok in H2.
    destruct (FrontMatter.read (Articles.part2 prose2)) as [fs|];
      [|discriminate].
    exists fs. split; [reflexivity|]. now apply fields_ok_conforms.
Qed.

(** ** Pagination *)

Section PaginationFacts.

Context {A : Type}.

(** Cutting pages loses nothing and reorders nothing. *)
Lemma chunks_concat (fuel size : nat) (items : list A) :
  (1 <= size)%nat -> (length items <= fuel)%nat ->
  concat (Pagination.chunks fuel size items) = items.
Proof.
  intros Hs. revert items.
  induction fuel as [|k IH]; intros items Hf.
  - destruct items; [reflexivity|simpl in Hf; lia].
  - destruct items as [|x rest]; [reflexivity|].
    cbn [Pagination.chunks concat].
    rewrite IH.
    + apply firstn_skipn.
    + rewrite length_skipn. simpl length in *. lia.
Qed.

Lemma paginate_concat (size : nat) (items : list A) :
  (1 <= size)%nat -> concat (Pagination.paginate size items) = items.
Proof. intros Hs. apply chunks_concat; [exact Hs|lia]. Qed.

(** No page is longer than the page size. *)
Lemma chunks_bounded (fuel size : nat) (items : list A) :
  Forall (fun page => (length page <= size)%nat)
         (Pagination.chunks fuel size items).
Proof.
  revert items. induction fuel as [|k IH]; intros items; [constructor|].
  destruct items as [|x rest]; [constructor|].
  cbn [Pagination.chunks]. constructor; [|apply IH].
  rewrite length_firstn. lia.
Qed.

Variable before : A -> A -> bool.
Hypothesis before_total : forall a b, before a b = true \/ before b a = true.

Lemma place_perm x l : Permutation (x :: l) (Pagination.place before x l).
Proof.
  induction l as [|y l IH]; simpl; [constructor; constructor|].
  destruct (before x y); [apply Permutation_refl|].
  eapply perm_trans; [apply perm_swap|]. now constructor.
Qed.

Lemma by_date_perm l : Permutation l (Pagination.by_date before l).
Proof.
  induction l as [|x l IH]; simpl; [constructor|].
  eapply perm_trans; [|apply place_perm]. now constructor.
Qed.

Lemma by_date_length l : length (Pagination.by_date before l) = length l.
Proof. symmetry. apply Permutation_length, by_date_perm. Qed.

Lemma place_hd x y l :
  Pagination.ordered before y x ->
  HdRel (Pagination.ordered before) y l ->
  HdRel (Pagination.ordered before) y (Pagination.place before x l).
Proof.
  intros Hyx Hl. destruct l as [|z l]; simpl.
  - now constructor.
  - destruct (before x z); constructor; [exact Hyx|].
    now inversion Hl.
Qed.

Lemma place_sorted x l :
  Sorted (Pagination.ordered before) l ->
  Sorted (Pagination.ordered before) (Pagination.place before x l).
Proof.
  induction 1 as [|y l Hs IH Hhd]; simpl.
  - repeat constructor.
  - destruct (before x y) eqn:E.
    + constructor; [now constructor|]. now constructor.
    + constructor; [exact IH|].
      apply place_hd; [|exact Hhd].
      unfold Pagination.ordered.
      destruct (before_total x y) as [H|H]; [congruence|exact H].
Qed.

Lemma by_date_sorted l :
  Sorted (Pagination.ordered before) (Pagination.by_date before l).
Proof.
  induction l as [|x l IH]; simpl; [constructor|]. now apply place_sorted.
Qed.

End PaginationFacts.

Lemma seven_items {A : Type} (l : list A) :
  length l = 7%nat -> exists a b c d e f g, l = [a; b; c; d; e; f; g].
Proof.
  intros H.
  do 7 (destruct l as [|? l]; [discriminate H|]).
  destruct l; [|discriminate H].
  now repeat eexists.
Qed.

(** C6: with the page size SITE.POSTS_PER_PAGE = 3, seven articles put in
    publication-date order are cut into pages of 3, 3 and 1 articles; the
    pages read in a row are the articles in that order, each once. *)
Theorem seven_posts_pages {A : Type} (before : A -> A -> bool)
    (posts : list A) :
  (forall a b, before a b = true \/ before b a = true) ->
  length posts = 7%nat ->
  let pages :=
    Pagination.paginate Pagination.page_size (Pagination.by_date before posts)
  in
  Pagination.page_size = 3%nat /\
  map (@length A) pages = [3; 3; 1]%nat /\
  concat pages = Pagination.by_date before posts /\
  Sorted (Pagination.ordered before) (concat pages) /\
  Permutation posts (concat pages).
Proof.
  intros Htotal Hlen pages.
  assert (Hcat : concat pages = Pagination.by_date before posts).
  { apply paginate_concat. unfold Pagination.page_size. simpl. lia. }
  split; [reflexivity|]. split; [|split; [exact Hcat|split]].
  - subst pages.
    destruct (seven_items (Pagination.by_date before posts))
      as (a & b & c & d & e & f & g & ->).
    + now rewrite by_date_length.
    + reflexivity.
  - rewrite Hcat. now apply by_date_sorted.
  - rewrite Hcat. apply by_date_perm.
Qed.

Lemma published_before_total a b :
  Pagination.published_before a b = true \/
  Pagination.published_before b a = true.
Proof.
  unfold Pagination.published_before.
  destruct (Nat.leb_spec (Pagination.day_number (Pagination.published a))
                         (Pagination.day_number (Pagination.published b)));
    [now left|right]. apply Nat.leb_le. lia.
Qed.

Lemma seven_posts_pages_witness :
  length Pagination.seven_posts = 7%nat /\
  map (map Pagination.slug)
      (Pagination.paginate Pagination.page_size
         (Pagination.by_date Pagination.published_before
            Pagination.seven_posts))
    = [["a"; "b"; "c"]; ["d"; "e"; "f"]; ["g"]] /\
  map (@length Pagination.Post)
      (Pagination.paginate Pagination.page_size
         (Pagination.by_date Pagination.published_before
            Pagination.seven_posts))
    = [3; 3; 1]%nat.
Proof.
  split; [reflexivity|]. split; [reflexivity|].
  apply (seven_posts_pages Pagination.published_before Pagination.seven_posts
           published_before_total eq_refl).
Defined.

(** ** Reading the configuration *)

Section Heap.

Import Exports.

Lemma replace_other (a b : addr) (o : object) (h : heap) :
  a <> b -> nth_error (replace a o h) b = nth_error h b.
Proof.
  revert a b. induction h as [|x h IH]; intros a b Hab.
  - destruct a; reflexivity.
  - destruct a as [|a], b as [|b]; simpl; try reflexivity.
    + congruence.
    + apply IH. congruence.
Qed.

Lemma replace_same (a : addr) (o x : object) (h : heap) :
  nth_error h a = Some x -> nth_error (replace a o h) a = Some o.
Proof.
  revert a. induction h as [|y h IH]; intros a Ha.
  - destruct a; discriminate Ha.
  - destruct a as [|a]; simpl; [reflexivity|]. apply IH. exact Ha.
Qed.

Lemma alloc_keeps (o x : object) (h : heap) (b : addr) :
  nth_error h b = Some x -> nth_error (snd (alloc o h)) b = Some x.
Proof.
  intros Hb. simpl. rewrite nth_error_app1; [exact Hb|].
  apply nth_error_Some. congruence.
Qed.

(** An operation changes no object but its target. *)
Lemma step_other (o : op) (h : heap) (b : addr) (x : object) :
  target o <> Some b -> nth_error h b = Some x ->
  nth_error (step o h) b = Some x.
Proof.
  intros Ht Hb. destruct o as [e|l|a p|a item]; cbn [step target] in *.
  - exact Hb.
  - now apply alloc_keeps.
  - destruct (nth_error h a) as [obj|]; [|exact Hb].
    destruct (assign p obj); [|exact Hb].
    rewrite replace_other; [exact Hb|congruence].
  - destruct (nth_error h a) as [[| |items]|]; try exact Hb.
    destruct (nth_error h item) as [[| |]|]; try exact Hb.
    rewrite replace_other; [exact Hb|congruence].
Qed.

(** No operation turns a [Link] object into something else. *)
Lemma step_link (o : op) (h : heap) (i : addr) (l : Link) :
  nth_error h i = Some (ObjLink l) ->
  exists l', nth_error (step o h) i = Some (ObjLink l').
Proof.
  intros Hi. destruct o as [e|l0|a p|a item]; cbn [step].
  - now exists l.
  - exists l. now apply alloc_keeps.
  - destruct (Nat.eq_dec a i) as [->|Hne].
    + rewrite Hi. destruct p; cbn [assign]; try (now exists l);
        erewrite replace_same by exact Hi; eexists; reflexivity.
    + destruct (nth_error h a) as [obj|]; [|now exists l].
      destruct (assign p obj); [|now exists l].
      exists l. now rewrite replace_other.
  - destruct (Nat.eq_dec a i) as [->|Hne].
    + rewrite Hi. now exists l.
    + destruct (nth_error h a) as [[| |items]|]; try (now exists l).
      destruct (nth_error h item) as [[| |]|]; try (now exists l).
      exists l. now rewrite replace_other.
Qed.

Lemma step_site (o : op) (h : heap) (b : addr) (s : Site) :
  nth_error h b = Some (ObjSite s) ->
  exists s', nth_error (step o h) b = Some (ObjSite s').
Proof.
  intros Hb. destruct o as [e|l0|a p|a item]; cbn [step].
  - now exists s.
  - exists s. now apply alloc_keeps.
  - destruct (Nat.eq_dec a b) as [->|Hne].
    + rewrite Hb. destruct p; cbn [assign]; try (now exists s);
        erewrite replace_same by exact Hb; eexists; reflexivity.
    + destruct (nth_error h a) as [obj|]; [|now exists s].
      destruct (assign p obj); [|now exists s].
      exists s. now rewrite replace_other.
  - destruct (Nat.eq_dec a b) as [->|Hne].
    + rewrite Hb. now exists s.
    + destruct (nth_error h a) as [[| |items]|]; try (now exists s).
      destruct (nth_error h item) as [[| |]|]; try (now exists s).
      exists s. now rewrite replace_other.
Qed.

Lemma links_at_step (o : op) (h : heap) (items : list addr) :
  links_at h items -> links_at (step o h) items.
Proof.
  unfold links_at. rewrite !Forall_forall. intros H i Hi.
  destruct (H i Hi) as [l Hl]. now apply step_link with (l := l).
Qed.

(** An array stays an array, and an array of links stays one. *)
Lemma step_array (o : op) (h : heap) (b : addr) (items : list addr) :
  nth_error h b = Some (ObjArray items) -> links_at h items ->
  exists items', nth_error (step o h) b = Some (ObjArray items') /\
                 links_at (step o h) items'.
Proof.
  intros Hb Hl.
  destruct (option_map (Nat.eqb b) (target o)) as [[|]|] eqn:Et.
  - (* the array itself is written to *)
    destruct o as [e|l0|a p|a item]; cbn [target option_map] in Et;
      try discriminate Et; inversion Et as [E]; apply Nat.eqb_eq in E; subst a.
    + exists items. cbn [step]. rewrite Hb.
      destruct p; cbn [assign]; (split; [exact Hb|exact Hl]).
    + cbn [step]. rewrite Hb.
      destruct (nth_error h item) as [[s|l|its]|] eqn:Ei;
        try (exists items; split; [exact Hb|exact Hl]).
      exists (items ++ [item])%list. split.
      * now apply replace_same with (x := ObjArray items).
      * assert (Hl' : links_at h (items ++ [item])%list).
        { unfold links_at. apply Forall_app. split; [exact Hl|].
          constructor; [now exists l|constructor]. }
        apply (links_at_step (Push b item)) in Hl'.
        cbn [step] in Hl'. now rewrite Hb, Ei in Hl'.
  - exists items. split; [|now apply links_at_step].
    apply step_other; [|exact Hb].
    destruct (target o) as [a|]; [|discriminate].
    cbn [option_map] in Et. inversion Et as [E].
    apply Nat.eqb_neq in E. congruence.
  - exists items. split; [|now apply links_at_step].
    apply step_other; [|exact Hb].
    destruct (target o); discriminate.
Qed.

Lemma links_of_defined (h : heap) (items : list addr) :
  links_at h items <-> exists ls, links_of h items = Some ls.
Proof.
  unfold links_at. induction items as [|i items IH]; simpl.
  - split; [now exists []|constructor].
  - split.
    + intros H. inversion H as [|? ? [l Hl] Hrest]; subst.
      apply IH in Hrest. destruct Hrest as [ls Hls].
      exists (l :: ls). now rewrite Hl, Hls.
    + intros [ls H].
      destruct (nth_error h i) as [[| l |]|] eqn:Ei; try discriminate H.
      destruct (links_of h items) as [ls'|] eqn:El; [|discriminate H].
      constructor; [now exists l|]. apply IH. now exists ls'.
Qed.

(** What can be read stays readable. *)
Lemma readable_step (o : op) (h : heap) (a : addr) :
  readable h a -> readable (step o h) a.
Proof.
  intros [[s Hs]|[items [Ha Hl]]].
  - left. now apply step_site with (s := s).
  - right. now apply step_array with (items := items).
Qed.

Lemma readable_run (ops : list op) (h : heap) (a : addr) :
  readable h a -> readable (run ops h) a.
Proof.
  revert h. induction ops as [|o ops IH]; intros h H; [exact H|].
  cbn [run fold_left]. apply IH. now apply readable_step.
Qed.

Lemma readable_view (h : heap) (a : addr) :
  readable h a -> exists v, view h a = Some v.
Proof.
  unfold view. intros [[s ->]|[items [-> Hl]]].
  - now exists (VSite s).
  - apply links_of_defined in Hl. destruct Hl as [ls ->].
    now exists (VLinks ls).
Qed.

Lemma readable_init (e : export) : readable init (binding e).
Proof.
  destruct e.
  - left. eexists. reflexivity.
  - right. eexists. split; [reflexivity|].
    repeat constructor; eexists; reflexivity.
  - right. eexists. split; [reflexivity|].
    repeat constructor; eexists; reflexivity.
Qed.

Lemma links_of_frame (o : op) (h : heap) (items : list addr)
    (ls : list Link) :
  (forall i, In i items -> target o <> Some i) ->
  links_of h items = Some ls -> links_of (step o h) items = Some ls.
Proof.
  revert ls. induction items as [|i items IH]; intros ls Ht H; [exact H|].
  simpl in H |- *.
  destruct (nth_error h i) as [[| l |]|] eqn:Ei; try discriminate H.
  destruct (links_of h items) as [ls'|] eqn:El; [|discriminate H].
  rewrite (step_other o h i (ObjLink l)); [|apply Ht; now left|exact Ei].
  rewrite (IH ls'); [exact H| |reflexivity].
  intros j Hj. apply Ht. now right.
Qed.

Lemma leaves_spec (objects : list addr) (o : op) (a : addr) :
  leaves objects o = true -> In a objects -> target o <> Some a.
Proof.
  unfold leaves. destruct (target o) as [b|]; [|discriminate].
  intros H Ha E. inversion E; subst b.
  apply negb_true_iff in H.
  assert (Hex : existsb (Nat.eqb a) objects = true).
  { apply existsb_exists. exists a. split; [exact Ha|apply Nat.eqb_refl]. }
  congruence.
Qed.

(** One operation that writes to none of the objects behind [e] changes
    neither what a read of [e] gives nor which objects stand behind it. *)
Lemma read_frame_step (o : op) (h : heap) (e : export) (v : value) :
  read e h = Some v -> leaves (footprint h e) o = true ->
  read e (step o h) = Some v /\ footprint (step o h) e = footprint h e.
Proof.
  unfold read, view, footprint. intros Hv Hl.
  destruct (nth_error h (binding e)) as [[s| |items]|] eqn:Eb;
    try discriminate Hv.
  - rewrite (step_other o h (binding e) (ObjSite s));
      [now split| |exact Eb].
    apply (leaves_spec _ _ _ Hl). now left.
  - rewrite (step_other o h (binding e) (ObjArray items));
      [| |exact Eb].
    + split; [|reflexivity].
      destruct (links_of h items) as [ls|] eqn:El; [|discriminate Hv].
      rewrite (links_of_frame o h items ls); [exact Hv| |exact El].
      intros i Hi. apply (leaves_spec _ _ _ Hl). now right.
    + apply (leaves_spec _ _ _ Hl). now left.
Qed.

Lemma read_frame_run (ops : list op) (h : heap) (e : export) (v : value) :
  read e h = Some v -> forallb (leaves (footprint h e)) ops = true ->
  read e (run ops h) = Some v.
Proof.
  revert h. induction ops as [|o ops IH]; intros h Hv Hl; [exact Hv|].
  cbn [forallb] in Hl. apply andb_prop in Hl. destruct Hl as [Ho Hl].
  destruct (read_frame_step o h e v Hv Ho) as [Hv' Hfp].
  cbn [run fold_left]. apply IH; [exact Hv'|]. now rewrite Hfp.
Qed.

End Heap.

(** C7, the claim as written fails: the exports are writable objects, and
    a consumer's assignment between two reads changes what the second read
    gives; an assignment to an entry of a menu shows through the menu. *)
Lemma consumer_write_changes_reads :
  Exports.read Exports.ExpSITE Exports.init = Some (Exports.VSite SITE) /\
  Exports.read Exports.ExpSITE
    (Exports.run [Exports.Assign 0 (Exports.PTitle "x")] Exports.init) =
    Some (Exports.VSite
            (mkSite "x" (DESCRIPTION SITE) (EMAIL SITE)
               (NUM_POSTS_ON_HOMEPAGE SITE) (POSTS_PER_PAGE SITE)
               (SITEURL SITE))) /\
  Exports.read Exports.ExpNAV_LINKS
    (Exports.run [Exports.Assign 1 (Exports.PLabel "x")] Exports.init) <>
  Exports.read Exports.ExpNAV_LINKS Exports.init /\
  ~ (forall ops1 ops2 e,
       Exports.read e (Exports.run ops2 (Exports.run ops1 Exports.init)) =
       Exports.read e (Exports.run ops1 Exports.init)).
Proof.
  split; [reflexivity|]. split; [reflexivity|]. split.
  - vm_compute. discriminate.
  - intros H.
    specialize (H [] [Exports.Assign 0 (Exports.PTitle "x")] Exports.ExpSITE).
    vm_compute in H. discriminate H.
Qed.

(** C7, amended: each export is bound once to the object its literal
    creates, holding the literal's values, and can always be read; two
    reads of the same export give the same value when no operation
    between them writes to the object bound to it or, for a menu, to one
    of its entries.  Writes before the first read and writes to other
    objects make no difference. *)
Theorem reads_agree_without_writes (ops1 ops2 : list Exports.op)
    (e : Exports.export) :
  forallb (Exports.leaves (Exports.footprint (Exports.run ops1 Exports.init) e))
          ops2 = true ->
  Exports.read e (Exports.run ops2 (Exports.run ops1 Exports.init)) =
    Exports.read e (Exports.run ops1 Exports.init) /\
  (exists v, Exports.read e (Exports.run ops1 Exports.init) = Some v) /\
  Exports.read e Exports.init =
    Some match e with
         | Exports.ExpSITE => Exports.VSite SITE
         | Exports.ExpNAV_LINKS => Exports.VLinks NAV_LINKS
         | Exports.ExpSOCIAL_LINKS => Exports.VLinks SOCIAL_LINKS
         end.
Proof.
  intros Hl.
  destruct (readable_view (Exports.run ops1 Exports.init) (Exports.binding e))
    as [v Hv].
  { apply readable_run, readable_init. }
  fold (Exports.read e (Exports.run ops1 Exports.init)) in Hv.
  split; [|split].
  - rewrite Hv. now apply read_frame_run.
  - now exists v.
  - destruct e; reflexivity.
Qed.

Lemma reads_agree_without_writes_witness :
  forallb
    (Exports.leaves
       (Exports.footprint
          (Exports.run [Exports.Assign 0 (Exports.PTitle "x")] Exports.init)
          Exports.ExpNAV_LINKS))
    [Exports.Read Exports.ExpNAV_LINKS;
     Exports.Assign 0 (Exports.PEmail "a@b.c");
     Exports.NewLink (mkLink "/x" "x");
     Exports.Push 10 11;
     Exports.Assign 6 (Exports.PLabel "gh")] = true /\
  Exports.read Exports.ExpNAV_LINKS
    (Exports.run
       [Exports.Read Exports.ExpNAV_LINKS;
        Exports.Assign 0 (Exports.PEmail "a@b.c");
        Exports.NewLink (mkLink "/x" "x");
        Exports.Push 10 11;
        Exports.Assign 6 (Exports.PLabel "gh")]
       (Exports.run [Exports.Assign 0 (Exports.PTitle "x")] Exports.init)) =
  Exports.read Exports.ExpNAV_LINKS
    (Exports.run [Exports.Assign 0 (Exports.PTitle "x")] Exports.init).
Proof.
  split; [reflexivity|].
  apply (reads_agree_without_writes
           [Exports.Assign 0 (Exports.PTitle "x")]
           [Exports.Read Exports.ExpNAV_LINKS;
            Exports.Assign 0 (Exports.PEmail "a@b.c");
            Exports.NewLink (mkLink "/x" "x");
            Exports.Push 10 11;
            Exports.Assign 6 (Exports.PLabel "gh")]
           Exports.ExpNAV_LINKS).
  reflexivity.
Defined.

(** ** Further facts on the two tables *)

(** X1: in NAV_LINKS every target is a slash followed by the entry's own
    label, so it is a one-segment path from the site root. *)
Theorem nav_target_from_label (l : Link) :
  In l NAV_LINKS ->
  href l = String "/" (label l) /\ Menu.is_root_segment (href l) = true.
Proof. intros Hl. each_link Hl; split; reflexivity. Qed.

Lemma nav_target_from_label_witness :
  In {| href := "/about"; label := "about" |} NAV_LINKS /\
  "/about" = String "/" "about" /\ Menu.is_root_segment "/about" = true.
Proof.
  split; [simpl; auto|].
  apply (nav_target_from_label {| href := "/about"; label := "about" |}).
  simpl; auto.
Defined.

(** X2: a menu target that is an absolute URL uses the scheme https, names
    a host other than the one of SITE.SITEURL, and stands in SOCIAL_LINKS:
    the navigation menu never leaves the site. *)
Theorem absolute_targets_https_offsite (m : list Link) (l : Link)
    (u s : Url.t) :
  In m menus -> In l m ->
  Url.parse (href l) = Some u -> Url.parse (SITEURL SITE) = Some s ->
  Url.scheme u = "https" /\ Url.host u <> Url.host s /\ In l SOCIAL_LINKS.
Proof.
  intros Hm Hl Hu Hs.
  vm_compute in Hs. inversion Hs; subst s; clear Hs.
  each_menu Hm; each_link Hl; vm_compute in Hu; try discriminate Hu;
    inversion Hu; subst u; cbn [Url.scheme Url.host];
    (split; [reflexivity|split; [discriminate|simpl; auto]]).
Qed.

Lemma absolute_targets_https_offsite_witness :
  In SOCIAL_LINKS menus /\
  In {| href := "https://github.com/strf0x1"; label := "GitHub" |}
     SOCIAL_LINKS /\
  Url.parse "https://github.com/strf0x1" =
    Some (Url.mk "https" "github.com" "/strf0x1") /\
  Url.parse (SITEURL SITE) =
    Some (Url.mk "https" "voluble-figolla-716fdd.netlify.app" "/blog/") /\
  "github.com" <> "voluble-figolla-716fdd.netlify.app".
Proof.
  split; [simpl; auto|]. split; [simpl; auto|].
  split; [reflexivity|]. split; [reflexivity|].
  apply (absolute_targets_https_offsite SOCIAL_LINKS
           {| href := "https://github.com/strf0x1"; label := "GitHub" |}
           (Url.mk "https" "github.com" "/strf0x1")
           (Url.mk "https" "voluble-figolla-716fdd.netlify.app" "/blog/"));
    first [reflexivity | simpl; auto].
Defined.

(** X3: a menu target that is a relative path is written from the site
    root and has a single segment; none is relative to the current page. *)
Theorem relative_targets_from_root (m : list Link) (l : Link) :
  In m menus -> In l m ->
  Url.is_relative_path (href l) = true ->
  Menu.is_root_segment (href l) = true /\
  Str.starts_with "./" (href l) = false /\
  Str.starts_with "../" (href l) = false.
Proof.
  intros Hm Hl Hr.
  each_menu Hm; each_link Hl; vm_compute in Hr; try discriminate Hr;
    repeat split.
Qed.

Lemma relative_targets_from_root_witness :
  In SOCIAL_LINKS menus /\
  In {| href := "/rss.xml"; label := "RSS" |} SOCIAL_LINKS /\
  Url.is_relative_path "/rss.xml" = true /\
  Menu.is_root_segment "/rss.xml" = true.
Proof.
  split; [simpl; auto|]. split; [simpl; auto|]. split; [reflexivity|].
  apply (relative_targets_from_root SOCIAL_LINKS
           {| href := "/rss.xml"; label := "RSS" |});
    first [reflexivity | simpl; auto].
Defined.

(** X4: over the two menus taken together no label occurs twice and no
    target occurs twice. *)
Theorem links_distinct_across_menus :
  NoDup (map label Menu.all_links) /\ NoDup (map href Menu.all_links) /\
  length Menu.all_links = 8%nat.
Proof.
  split; [|split; [|reflexivity]];
    repeat constructor; simpl; intuition discriminate.
Qed.

(** X5: SITE.EMAIL is a well-formed address, and a menu entry carries it as
    its target exactly when the entry is labelled Email. *)
Theorem contact_address_link (m : list Link) (l : Link) :
  In m menus -> In l m ->
  Url.is_email_address (EMAIL SITE) = true /\
  (href l = EMAIL SITE <-> label l = "Email") /\
  (Url.is_email_address (href l) = true <-> label l = "Email").
Proof.
  intros Hm Hl. split; [reflexivity|].
  each_menu Hm; each_link Hl;
    (split; split; intros E; first [reflexivity | discriminate E]).
Qed.

Lemma contact_address_link_witness :
  In SOCIAL_LINKS menus /\
  In {| href := "str.f0x@protonmail.com"; label := "Email" |} SOCIAL_LINKS /\
  Url.is_email_address (EMAIL SITE) = true /\
  ("str.f0x@protonmail.com" = EMAIL SITE <-> "Email" = "Email") /\
  (Url.is_email_address "str.f0x@protonmail.com" = true <->
   "Email" = "Email").
Proof.
  split; [simpl; auto|]. split; [simpl; auto|].
  apply (contact_address_link SOCIAL_LINKS
           {| href := "str.f0x@protonmail.com"; label := "Email" |});
    simpl; auto.
Defined.

(** X6: the path of SITE.SITEURL is the target of the first navigation
    entry followed by a slash: the URL names the page that entry links to,
    on the same host. *)
Theorem siteurl_path_is_first_nav_target (u : Url.t) (l : Link) :
  Url.parse (SITEURL SITE) = Some u -> nth_error NAV_LINKS 0 = Some l ->
  Url.path u = href l ++ "/" /\
  SITEURL SITE = Url.scheme u ++ "://" ++ Url.host u ++ href l ++ "/" /\
  label l = "blog".
Proof.
  intros Hu Hl. vm_compute in Hu. inversion Hu; subst u; clear Hu.
  simpl in Hl. inversion Hl; subst l; clear Hl.
  repeat split.
Qed.

Lemma siteurl_path_is_first_nav_target_witness :
  Url.parse (SITEURL SITE) =
    Some (Url.mk "https" "voluble-figolla-716fdd.netlify.app" "/blog/") /\
  nth_error NAV_LINKS 0 = Some {| href := "/blog"; label := "blog" |} /\
  "/blog/" = "/blog" ++ "/".
Proof.
  split; [reflexivity|]. split; [reflexivity|].
  apply (siteurl_path_is_first_nav_target
           (Url.mk "https" "voluble-figolla-716fdd.netlify.app" "/blog/")
           {| href := "/blog"; label := "blog" |}); reflexivity.
Defined.

(** ** The two loops of the article *)



Lemma range_bounds (start stop i : Z) :
  In i (Snippet.range start stop) -> (start <= i < stop)%Z.
Proof.
  unfold Snippet.range. rewrite in_map_iff.
  intros (k & <- & Hk). apply in_seq in Hk. lia.
Qed.


Lemma for_each_chars (items : list Z) (lines out : list string) :
  map Snippet.chr items = map Some lines ->
  Snippet.for_each items
    (fun i o => match Snippet.chr i with
                | Some line => Snippet.print line o
                | None => Snippet.Raised o
                end) out =
  Snippet.Finished (out ++ lines)%list.
Proof.
  revert lines out. induction items as [|i items IH]; intros lines out H.
  - destruct lines; [|discriminate H]. simpl. now rewrite app_nil_r.
  - destruct lines as [|line lines]; [discriminate H|].
    simpl in H. inversion H as [[Hi Hrest]]. simpl. rewrite Hi. simpl.
    rewrite (IH lines), <- app_assoc; [reflexivity|exact Hrest].
Qed.



(** X8: the loop given in answer, [for i in range(65, 91): print(chr(i))],
    finishes without raising and adds the 26 lines A to Z, in order, after
    what was printed before: it does what the prompt asks. *)
Theorem answer_prints_alphabet (out : list string) :
  Snippet.answer out =
    Snippet.Finished
      (out ++ ["A"; "B"; "C"; "D"; "E"; "F"; "G"; "H"; "I"; "J"; "K"; "L";
               "M"; "N"; "O"; "P"; "Q"; "R"; "S"; "T"; "U"; "V"; "W"; "X";
               "Y"; "Z"])%list.
Proof.
  unfold Snippet.answer, Snippet.print_chars.
  apply for_each_chars. reflexivity.
Qed.

(** With bounds inside the one-byte characters the loop of the answer
    never raises and prints one character per line; when the first value
    of the range is negative it raises at once and prints nothing. *)
Lemma print_chars_bounds (start stop : Z) (out : list string) :
  ((0 <= start)%Z -> (stop <= 128)%Z ->
   Snippet.print_chars start stop out =
     Snippet.Finished
       (out ++ map (fun i => String (Snippet.byte i) "")
                   (Snippet.range start stop))%list) /\
  ((start < 0)%Z -> (start < stop)%Z ->
   Snippet.print_chars start stop out = Snippet.Raised out).
Proof.
  unfold Snippet.print_chars. split.
  - intros Hlo Hhi. apply for_each_chars.
    rewrite map_map. apply map_ext_in. intros i Hi.
    apply range_bounds in Hi. unfold Snippet.chr.
    replace (i <? 0)%Z with false by (symmetry; apply Z.ltb_ge; lia).
    replace (1114111 <? i)%Z with false by (symmetry; apply Z.ltb_ge; lia).
    replace (55296 <=? i)%Z with false by (symmetry; apply Z.leb_gt; lia).
    replace (i <? 128)%Z with true by (symmetry; apply Z.ltb_lt; lia).
    reflexivity.
  - intros Hneg Hlt. unfold Snippet.range.
    destruct (Z.to_nat (stop - start)) as [|n] eqn:En; [lia|].
    cbn [seq map Snippet.for_each]. rewrite Z.add_0_r.
    unfold Snippet.chr.
    replace (start <? 0)%Z with true by (symmetry; apply Z.ltb_lt; lia).
    reflexivity.
Qed.

(** ** The two articles side by side *)

(** X9: the two articles carry the same tags, the same image path and the
    same author list, and differ in title, description and date; this holds
    whatever prose follows either block. *)
Theorem articles_shared_fields (prose1 prose2 : list string)
    (fs1 fs2 : FrontMatter.fields) :
  FrontMatter.read (Articles.part1 prose1) = Some fs1 ->
  FrontMatter.read (Articles.part2 prose2) = Some fs2 ->
  (forall key, In key ["tags"; "image"; "authors"] ->
     FrontMatter.lookup key fs1 = FrontMatter.lookup key fs2) /\
  (forall key, In key ["title"; "description"; "date"] ->
     FrontMatter.lookup key fs1 <> FrontMatter.lookup key fs2) /\
  map fst fs1 = map fst fs2.
Proof.
  rewrite part1_fields, part2_fields. intros H1 H2.
  inversion H1; subst fs1; clear H1. inversion H2; subst fs2; clear H2.
  split; [|split; [|reflexivity]]; intros key Hk; simpl in Hk;
    repeat match type of Hk with
           | _ \/ _ => destruct Hk as [<-|Hk]
           | False => destruct Hk
           end; first [reflexivity | discriminate].
Qed.

Lemma articles_shared_fields_witness :
  FrontMatter.read (Articles.part1 []) <> None /\
  FrontMatter.read (Articles.part2 []) <> None /\
  FrontMatter.lookup "authors"
    (match FrontMatter.read (Articles.part1 []) with
     | Some fs => fs | None => [] end) =
  FrontMatter.lookup "authors"
    (match FrontMatter.read (Articles.part2 []) with
     | Some fs => fs | None => [] end).
Proof.
  split; [discriminate|]. split; [discriminate|].
  destruct (FrontMatter.read (Articles.part1 [])) as [fs1|] eqn:E1;
    [|discriminate E1].
  destruct (FrontMatter.read (Articles.part2 [])) as [fs2|] eqn:E2;
    [|discriminate E2].
  apply (articles_shared_fields [] [] fs1 fs2 E1 E2). simpl; auto.
Defined.
